(** * png2argb: the PAM-to-ARGB8888 icon converter of [src/img/png2argb.py]

    The script asks [pngtopam -alphapam] for a PAM rendering of a PNG icon,
    checks the PAM signature, looks for the end of the PAM header, checks
    that exactly 32*32 RGBA pixels follow, rewrites every pixel from
    (r, g, b, a) to (a, r, g, b) and stores the result in a file.

    The development below embeds the script function by function and proves
    the properties its specification states about it. *)

From Stdlib.Strings Require Import Byte.
From stdpp Require Import gmap strings list.

(** ** Data *)

(** A Python [bytes] object: a finite sequence of 8-bit values. *)
Abbreviation bytes := (list byte).

(** The exceptions the script can raise. *)
Inductive exn : Type :=
  | ValueError (msg : string)
  | StopIteration
  | CalledProcessError (returncode : Z) (cmd : list string)
  | OSError (filename : string).

(** The outcome of a computation that either returns or raises. *)
Inductive result (A : Type) : Type :=
  | Ok (a : A)
  | Raise (e : exn).
Arguments Ok {A} a.
Arguments Raise {A} e.

Definition is_Ok {A} (r : result A) : bool :=
  match r with Ok _ => true | Raise _ => false end.

(** Sequencing: an exception raised by the first computation ends the
    whole. This gives [x ← r; k] its meaning on [result]. *)
#[global] Instance result_bind : MBind result := λ A B k r,
  match r with
  | Ok a => k a
  | Raise e => Raise e
  end.
#[global] Instance result_ret : MRet result := λ A a, Ok a.

(** ** Constants of the script *)

(** [b"P7\n"], the signature every PAM file starts with. *)
Definition PAM_SIGNATURE : bytes := [x50; x37; x0a].

(** [END_HEADER_CHUNK = b"\nENDHDR\n"] (line 21). *)
Definition END_HEADER_CHUNK : bytes :=
  [x0a; x45; x4e; x44; x48; x44; x52; x0a].

(** [4 * 32 * 32], the size of a 32x32 image with four bytes per pixel. *)
Definition ICON_BYTES : nat := 4 * 32 * 32.

Definition MSG_INVALID_PAM : string :=
  "pngtopam returned an invalid PAM file"%string.
Definition MSG_WRONG_LENGTH : string :=
  "PAM payload has the wrong length, is this a 32x32 ARGB8888 icon?"%string.
(** The message of the [ValueError] that [bytes.index] raises. *)
Definition MSG_NOT_FOUND : string := "subsection not found"%string.

(** ** The [bytes] methods the script calls *)

(** [s.startswith(prefix)] *)
Fixpoint startswith (s prefix : bytes) {struct prefix} : bool :=
  match prefix with
  | [] => true
  | p :: prefix' =>
      match s with
      | [] => false
      | x :: s' => Byte.eqb x p && startswith s' prefix'
      end
  end.

(** [s.find(sub)]: the lowest index at which [sub] starts in [s], if any. *)
Fixpoint bytes_find (s sub : bytes) {struct s} : option nat :=
  if startswith s sub then Some 0
  else match s with
       | [] => None
       | _ :: s' => S <$> bytes_find s' sub
       end.

(** [s.index(sub)]: like [find], but a missing [sub] is a [ValueError]. *)
Definition index (s sub : bytes) : result nat :=
  match bytes_find s sub with
  | Some i => Ok i
  | None => Raise (ValueError MSG_NOT_FOUND)
  end.

(** ** The byte-rearranging loop (lines 35 to 48) *)

(** An iterator over a [bytes] object is the sequence of bytes it has yet to
    yield. *)
Abbreviation iterator := (list byte) (only parsing).

(** [next(it, None)] *)
Definition next_or_none (it : iterator) : option byte * iterator :=
  match it with
  | [] => (None, [])
  | x :: it' => (Some x, it')
  end.

(** [next(it)] *)
Definition next (it : iterator) : result (byte * iterator) :=
  match it with
  | [] => Raise StopIteration
  | x :: it' => Ok (x, it')
  end.

(** What one pass through the body of [while True] does to the pair of
    [pam_iter] and [argb_data_list]. *)
Inductive flow : Type :=
  | Break (argb_data_list : list byte)
  | Continue (pam_iter : iterator) (argb_data_list : list byte)
  | Abort (e : exn).

Definition loop_body (pam_iter : iterator) (argb_data_list : list byte) : flow :=
  let '(r, it1) := next_or_none pam_iter in
  match r with
  | None => Break argb_data_list
  | Some r =>
      match next it1 with
      | Raise e => Abort e
      | Ok (g, it2) =>
          match next it2 with
          | Raise e => Abort e
          | Ok (b, it3) =>
              match next it3 with
              | Raise e => Abort e
              | Ok (a, it4) =>
                  Continue it4 (argb_data_list ++ [a] ++ [r] ++ [g] ++ [b])
              end
          end
      end
  end.

(** The loop run for at most [fuel] passes; [None] when the passes run out
    before the loop has left. *)
Fixpoint while_true (fuel : nat) (pam_iter : iterator)
    (argb_data_list : list byte) : option (result (list byte)) :=
  match fuel with
  | 0 => None
  | S fuel' =>
      match loop_body pam_iter argb_data_list with
      | Break out => Some (Ok out)
      | Abort e => Some (Raise e)
      | Continue it' acc' => while_true fuel' it' acc'
      end
  end.

(** The state of the loop after [n] complete passes, if it gets that far. *)
Fixpoint after_passes (n : nat) (pam_iter : iterator)
    (argb_data_list : list byte) : option (iterator * list byte) :=
  match n with
  | 0 => Some (pam_iter, argb_data_list)
  | S n' =>
      match loop_body pam_iter argb_data_list with
      | Continue it' acc' => after_passes n' it' acc'
      | _ => None
      end
  end.

(** The same loop as a structurally recursive function: every pass consumes
    four bytes of the iterator, so the recursion is on what is left of it. *)
Fixpoint rearrange_loop (pam_iter : iterator) (argb_data_list : list byte)
    : result (list byte) :=
  match pam_iter with
  | [] => Ok argb_data_list
  | r :: it1 =>
      match it1 with
      | [] => Raise StopIteration
      | g :: it2 =>
          match it2 with
          | [] => Raise StopIteration
          | b :: it3 =>
              match it3 with
              | [] => Raise StopIteration
              | a :: it4 =>
                  rearrange_loop it4 (argb_data_list ++ [a] ++ [r] ++ [g] ++ [b])
              end
          end
      end
  end.

(** ** The conversion proper (lines 25 to 49) *)

(** [convert pam] is what [perform_conversion] computes between receiving
    the decoder's output [pam] and opening the output file. *)
Definition convert (pam : bytes) : result bytes :=
  if negb (startswith pam PAM_SIGNATURE) then
    Raise (ValueError MSG_INVALID_PAM)
  else
    end_header_start_index ← index pam END_HEADER_CHUNK;
    let end_header_index := end_header_start_index + length END_HEADER_CHUNK in
    let pam_data := drop end_header_index pam in
    if negb (length pam_data =? ICON_BYTES)%nat then
      Raise (ValueError MSG_WRONG_LENGTH)
    else
      argb_data_list ← rearrange_loop pam_data [];
      (* [bytes(argb_data_list)]: the values were read from a [bytes]
         object, so all of them fit and none is changed *)
      mret argb_data_list.

(** The value of the variable [pam_data] at line 30, when the script gets
    that far: the same steps as the first half of [convert]. *)
Definition extract_pam_data (pam : bytes) : result bytes :=
  if negb (startswith pam PAM_SIGNATURE) then
    Raise (ValueError MSG_INVALID_PAM)
  else
    end_header_start_index ← index pam END_HEADER_CHUNK;
    let end_header_index := end_header_start_index + length END_HEADER_CHUNK in
    mret (drop end_header_index pam).

(** ** The outside world: the decoder and the file system *)

(** What the script does to its environment, in the order it does it. *)
Inductive io_event : Type :=
  | EvRun (cmd : list string)
  | EvOpen (path : string)
  | EvWrite (path : string) (data : bytes)
  | EvClose (path : string).

Record world : Type := World {
  files : gmap string bytes;
  trace : list io_event
}.

(** A computation that returns or raises, and may change the world. *)
Definition io (A : Type) : Type := world → result A * world.

#[global] Instance io_bind : MBind io := λ A B k m w,
  match m w with
  | (Ok a, w') => k a w'
  | (Raise e, w') => (Raise e, w')
  end.
#[global] Instance io_ret : MRet io := λ A a w, (Ok a, w).

Definition lift_result {A} (r : result A) : io A := λ w, (r, w).

Definition emit (ev : io_event) (w : world) : world :=
  World (files w) (trace w ++ [ev]).

Section Script.

(** The programs installed on the machine: given a command line and the
    files it can read, the exit status and the bytes printed on standard
    output. [pngtopam] only prints, so running a command leaves the files
    as they are. *)
Variable run_command : list string → gmap string bytes → Z * bytes.

(** Whether the file system lets a file be created or truncated at a
    path. *)
Variable can_create : gmap string bytes → string → bool.

(** [subprocess.run(cmd, stdout=PIPE, text=False, check=True).stdout] *)
Definition subprocess_run_stdout (cmd : list string) : io bytes := λ w,
  let '(returncode, stdout) := run_command cmd (files w) in
  if (returncode =? 0)%Z then (Ok stdout, emit (EvRun cmd) w)
  else (Raise (CalledProcessError returncode cmd), emit (EvRun cmd) w).

(** [png2pam] (lines 6 to 17) *)
Definition png2pam (png_path : string) : io bytes :=
  subprocess_run_stdout ["pngtopam"; "-alphapam"; png_path]%string.

(** [open(path, "wb")]: the file is created, or emptied when it exists.
    The handle returned is the path itself. *)
Definition open_wb (path : string) : io string := λ w,
  if can_create (files w) path then
    (Ok path, World (<[path := []]> (files w)) (trace w ++ [EvOpen path]))
  else (Raise (OSError path), w).

(** [f.write(data)] *)
Definition write (f : string) (data : bytes) : io unit := λ w,
  (Ok (), World (alter (λ old, old ++ data) f (files w))
                (trace w ++ [EvWrite f data])).

(** Leaving the [with] block closes the file. *)
Definition close (f : string) : io unit := λ w, (Ok (), emit (EvClose f) w).

(** [perform_conversion] (lines 20 to 53) *)
Definition perform_conversion (input_png_path output_bin_path : string)
    : io unit :=
  pam ← png2pam input_png_path;
  argb_data ← lift_result (convert pam);
  f ← open_wb output_bin_path;
  _ ← write f argb_data;
  close f.

End Script.

(** ** The vocabulary of the specification *)

(** [sub] occurs in [s] at index [j]. *)
Definition occurs_at (sub s : bytes) (j : nat) : Prop :=
  ∃ pre post, s = pre ++ sub ++ post ∧ length pre = j.

(** [s] contains [sub] somewhere. *)
Definition contains (s sub : bytes) : Prop := ∃ j, occurs_at sub s j.

(** [i] is the index of the first occurrence of [sub] in [s]. *)
Definition first_occurrence (sub s : bytes) (i : nat) : Prop :=
  occurs_at sub s i ∧ ∀ j, j < i → ¬ occurs_at sub s j.

(** A pixel and its two layouts. *)
Record pixel : Type := Pixel { red : byte; green : byte; blue : byte; alpha : byte }.

Definition rgba (p : pixel) : bytes := [red p; green p; blue p; alpha p].
Definition argb (p : pixel) : bytes := [alpha p; red p; green p; blue p].

(** A sequence of pixels laid out group after group. *)
Definition rgba_bytes (px : list pixel) : bytes := concat (rgba <$> px).
Definition argb_bytes (px : list pixel) : bytes := concat (argb <$> px).

(** The smallest container there is around a payload: the signature and the
    end-of-header marker share the line feed between them. *)
Definition minimal_container (payload : bytes) : bytes :=
  [x50; x37; x0a; x45; x4e; x44; x48; x44; x52; x0a] ++ payload.

(** The header [pngtopam -alphapam] prints for a 32x32 RGBA image, followed
    by a payload. *)
Definition pngtopam_header : bytes :=
  Eval cbv in
    let LF := String (Ascii.ascii_of_nat 10) "" in
    String.list_byte_of_string
      ("P7" +:+ LF +:+ "WIDTH 32" +:+ LF +:+ "HEIGHT 32" +:+ LF +:+
       "DEPTH 4" +:+ LF +:+ "MAXVAL 255" +:+ LF +:+
       "TUPLTYPE RGB_ALPHA" +:+ LF +:+ "ENDHDR" +:+ LF).

(** Lines 27 to 49: what [convert] does once the signature has been
    accepted. *)
Definition after_signature_check (pam : bytes) : result bytes :=
  end_header_start_index ← index pam END_HEADER_CHUNK;
  let end_header_index := end_header_start_index + length END_HEADER_CHUNK in
  let pam_data := drop end_header_index pam in
  if negb (length pam_data =? ICON_BYTES)%nat then
    Raise (ValueError MSG_WRONG_LENGTH)
  else
    argb_data_list ← rearrange_loop pam_data [];
    mret argb_data_list.

(** Lines 25 and 26 in front of an arbitrary remainder of the function. *)
Definition signature_guard (rest : bytes → result bytes) (pam : bytes)
    : result bytes :=
  if negb (startswith pam PAM_SIGNATURE) then
    Raise (ValueError MSG_INVALID_PAM)
  else rest pam.

(** The four ways a conversion can go, each with the condition on the
    container that leads to it. *)
Inductive convert_spec (pam : bytes) : result bytes → Prop :=
  | convert_bad_signature :
      ¬ PAM_SIGNATURE `prefix_of` pam →
      convert_spec pam (Raise (ValueError MSG_INVALID_PAM))
  | convert_no_marker :
      PAM_SIGNATURE `prefix_of` pam →
      ¬ contains pam END_HEADER_CHUNK →
      convert_spec pam (Raise (ValueError MSG_NOT_FOUND))
  | convert_wrong_length i :
      PAM_SIGNATURE `prefix_of` pam →
      first_occurrence END_HEADER_CHUNK pam i →
      length (drop (i + length END_HEADER_CHUNK) pam) ≠ 4096 →
      convert_spec pam (Raise (ValueError MSG_WRONG_LENGTH))
  | convert_pixels i px :
      PAM_SIGNATURE `prefix_of` pam →
      first_occurrence END_HEADER_CHUNK pam i →
      drop (i + length END_HEADER_CHUNK) pam = rgba_bytes px →
      length px = 1024 →
      convert_spec pam (Ok (argb_bytes px)).

(** ** Sample inputs *)

(** The payload of the concrete scenario of the specification and the output
    expected for it. *)
Definition scenario_payload : bytes := concat (replicate 1024 [x10; x20; x30; x40]).
Definition scenario_output : bytes := concat (replicate 1024 [x40; x10; x20; x30]).

(** An icon whose upper and lower halves differ. *)
Definition two_tone_icon : list pixel :=
  replicate 512 (Pixel x01 x02 x03 x04) ++ replicate 512 (Pixel xf5 xf6 xf7 xf8).

(** A container whose header is not that of an RGBA image at all. *)
Definition odd_header_container : bytes :=
  PAM_SIGNATURE
  ++ String.list_byte_of_string "DEPTH 1 MAXVAL 7 TUPLTYPE BLACKANDWHITE"
  ++ END_HEADER_CHUNK ++ replicate 4096 x00.

(** A container with the marker twice in a row: the second one opens the
    payload. *)
Definition double_marker_container : bytes :=
  pngtopam_header ++ END_HEADER_CHUNK ++ replicate 4088 x00.

(** A decoder that prints a well-formed container of four pixels. *)
Definition four_pixel_decoder (cmd : list string) (fs : gmap string bytes)
    : Z * bytes :=
  (0%Z, minimal_container
          [x01; x02; x03; x04; x05; x06; x07; x08;
           x09; x0a; x0b; x0c; x0d; x0e; x0f; x10]).

Definition stale_world : world :=
  World {["icon.bin"%string := [xde; xad]]} [].

(** The move of one pixel's channels that the loop performs, as a map on
    pixels: the old alpha becomes the first channel. *)
Definition rotate_channels (p : pixel) : pixel :=
  Pixel (alpha p) (red p) (green p) (blue p).

(** A decoder that prints a perfectly good container for the scenario icon
    and exits with the given status. *)
Definition scenario_decoder (returncode : Z) (cmd : list string)
    (fs : gmap string bytes) : Z * bytes :=
  (returncode, pngtopam_header ++ scenario_payload).

(** File systems that allow every file to be created, or none. *)
Definition allow_create (fs : gmap string bytes) (path : string) : bool := true.
Definition deny_create (fs : gmap string bytes) (path : string) : bool := false.

(** * Properties *)

(** ** Searching in byte strings *)

Section Search.
Implicit Types s sub pre post : bytes.

Lemma startswith_prefix s sub : startswith s sub = true ↔ sub `prefix_of` s.
Proof.
  revert s. induction sub as [|p sub IH]; intros s; simpl.
  - split; [intros _; apply prefix_nil | done].
  - destruct s as [|x s].
    + split; [done | intros H; by apply prefix_nil_not in H].
    + rewrite andb_true_iff, IH. split.
      * intros [Hx Hs]. apply Byte.byte_dec_bl in Hx. by apply prefix_cons_alt.
      * intros H. split.
        -- apply Byte.byte_dec_lb. by apply prefix_cons_inv_1 in H.
        -- by apply prefix_cons_inv_2 in H.
Qed.

Lemma startswith_not_prefix s sub :
  startswith s sub = false ↔ ¬ sub `prefix_of` s.
Proof.
  rewrite <-startswith_prefix. destruct (startswith s sub); naive_solver.
Qed.

Lemma occurs_at_0 sub s : occurs_at sub s 0 ↔ sub `prefix_of` s.
Proof.
  split.
  - intros (pre & post & -> & Hlen). destruct pre; [|done]. by exists post.
  - intros [post ->]. by exists [], post.
Qed.

Lemma occurs_at_S sub x s j : occurs_at sub (x :: s) (S j) ↔ occurs_at sub s j.
Proof.
  split.
  - intros (pre & post & Heq & Hlen). destruct pre as [|y pre]; [done|].
    simpl in *. exists pre, post. split; congruence.
  - intros (pre & post & -> & Hlen). exists (x :: pre), post.
    split; simpl; congruence.
Qed.

Lemma occurs_at_nil sub j : occurs_at sub [] j → j = 0.
Proof. intros (pre & post & Heq & Hlen). destruct pre; [done | discriminate]. Qed.

Lemma occurs_at_bound sub s j : occurs_at sub s j → j + length sub ≤ length s.
Proof.
  intros (pre & post & -> & <-). rewrite !length_app. lia.
Qed.

Lemma occurs_at_drop sub s j :
  occurs_at sub s j ↔ j ≤ length s ∧ sub `prefix_of` drop j s.
Proof.
  split.
  - intros (pre & post & -> & <-). split; [rewrite length_app; lia|].
    rewrite drop_app_length. by exists post.
  - intros [Hj [post Hpost]]. exists (take j s), post. split.
    + by rewrite <-Hpost, take_drop.
    + rewrite length_take. lia.
Qed.

(** [find] returns the index of the first occurrence, ... *)
Lemma bytes_find_Some s sub i :
  bytes_find s sub = Some i ↔ first_occurrence sub s i.
Proof.
  revert i. induction s as [|x s IH]; intros i; simpl.
  - destruct (startswith [] sub) eqn:Hst.
    + apply startswith_prefix, occurs_at_0 in Hst. split.
      * intros [= <-]. split; [done | lia].
      * intros [Hocc _]. by apply occurs_at_nil in Hocc as ->.
    + apply startswith_not_prefix in Hst. split; [done|].
      intros [Hocc _]. pose proof (occurs_at_nil _ _ Hocc) as ->.
      by apply occurs_at_0 in Hocc.
  - destruct (startswith (x :: s) sub) eqn:Hst.
    + apply startswith_prefix, occurs_at_0 in Hst. split.
      * intros [= <-]. split; [done | lia].
      * intros [_ Hmin]. destruct i as [|i]; [done|].
        destruct (Hmin 0); [lia | done].
    + apply startswith_not_prefix in Hst. rewrite <-occurs_at_0 in Hst.
      destruct i as [|i].
      * split; [by destruct (bytes_find s sub) | by intros [? _]].
      * rewrite fmap_Some. split.
        -- intros (i' & Hfind & [= ->]). apply IH in Hfind as [Hocc Hmin].
           split; [by apply occurs_at_S|].
           intros [|j] Hj; [done|]. rewrite occurs_at_S. apply Hmin. lia.
        -- intros [Hocc Hmin]. exists i. split; [|done]. apply IH. split.
           ++ by apply occurs_at_S in Hocc.
           ++ intros j Hj Hoccj. apply (Hmin (S j)); [lia|].
              by apply occurs_at_S.
Qed.

(** ... and nothing exactly when there is no occurrence. *)
Lemma bytes_find_None s sub : bytes_find s sub = None ↔ ¬ contains s sub.
Proof.
  induction s as [|x s IH]; simpl.
  - destruct (startswith [] sub) eqn:Hst.
    + apply startswith_prefix, occurs_at_0 in Hst. split; [done|].
      intros []. by exists 0.
    + apply startswith_not_prefix in Hst. split; [|done].
      intros _ [j Hocc]. pose proof (occurs_at_nil _ _ Hocc) as ->.
      by apply occurs_at_0 in Hocc.
  - destruct (startswith (x :: s) sub) eqn:Hst.
    + apply startswith_prefix, occurs_at_0 in Hst. split; [done|].
      intros []. by exists 0.
    + apply startswith_not_prefix in Hst. rewrite <-occurs_at_0 in Hst.
      rewrite fmap_None, IH. split.
      * intros Hno [[|j] Hocc]; [done|]. apply Hno. exists j.
        by apply occurs_at_S in Hocc.
      * intros Hno [j Hocc]. apply Hno. exists (S j). by apply occurs_at_S.
Qed.

Lemma first_occurrence_unique sub s i j :
  first_occurrence sub s i → first_occurrence sub s j → i = j.
Proof.
  intros Hi Hj. apply bytes_find_Some in Hi, Hj. congruence.
Qed.

Lemma index_Ok s sub i : index s sub = Ok i ↔ first_occurrence sub s i.
Proof.
  rewrite <-bytes_find_Some. unfold index.
  destruct (bytes_find s sub); naive_solver.
Qed.

Lemma index_Raise s sub e :
  index s sub = Raise e ↔ ¬ contains s sub ∧ e = ValueError MSG_NOT_FOUND.
Proof.
  rewrite <-bytes_find_None. unfold index.
  destruct (bytes_find s sub) as [i|].
  - split; [done | by intros [? _]].
  - split; [by intros [= <-] | by intros [_ ->]].
Qed.

End Search.

(** ** The loop *)

Section Loop.
Implicit Types it acc out rest : bytes.
Implicit Types px : list pixel.

Lemma rgba_bytes_cons p px : rgba_bytes (p :: px) = rgba p ++ rgba_bytes px.
Proof. reflexivity. Qed.

Lemma argb_bytes_cons p px : argb_bytes (p :: px) = argb p ++ argb_bytes px.
Proof. reflexivity. Qed.

Lemma length_rgba_bytes px : length (rgba_bytes px) = 4 * length px.
Proof.
  induction px as [|p px IH]; [done|].
  rewrite rgba_bytes_cons, length_app, IH. simpl. lia.
Qed.

Lemma length_argb_bytes px : length (argb_bytes px) = 4 * length px.
Proof.
  induction px as [|p px IH]; [done|].
  rewrite argb_bytes_cons, length_app, IH. simpl. lia.
Qed.

(** Every byte string is a run of whole pixels followed by fewer than four
    bytes. *)
Lemma bytes_groups it :
  ∃ px rest, it = rgba_bytes px ++ rest ∧ length rest < 4.
Proof.
  enough (H : ∀ n it, length it < n →
              ∃ px rest, it = rgba_bytes px ++ rest ∧ length rest < 4)
    by (apply (H (S (length it))); lia).
  clear it. induction n as [|n IH]; intros it Hn; [lia|].
  destruct it as [|r [|g [|b [|a it]]]];
    try (eexists [], _; split; [reflexivity | simpl; lia]).
  destruct (IH it) as (px & rest & -> & Hrest); [simpl in Hn; lia|].
  by exists (Pixel r g b a :: px), rest.
Qed.

Lemma loop_body_pixel p it acc :
  loop_body (rgba p ++ it) acc = Continue it (acc ++ argb p).
Proof. by destruct p. Qed.

Lemma loop_body_short rest acc :
  length rest < 4 →
  loop_body rest acc =
    match rest with [] => Break acc | _ => Abort StopIteration end.
Proof.
  destruct rest as [|r [|g [|b [|a rest]]]]; simpl; try done. lia.
Qed.

Lemma rearrange_loop_pixel p it acc :
  rearrange_loop (rgba p ++ it) acc = rearrange_loop it (acc ++ argb p).
Proof. by destruct p. Qed.

Lemma rearrange_loop_short rest acc :
  length rest < 4 →
  rearrange_loop rest acc =
    match rest with [] => Ok acc | _ => Raise StopIteration end.
Proof.
  destruct rest as [|r [|g [|b [|a rest]]]]; simpl; try done. lia.
Qed.

(** Whole pixels at the front of the iterator move to the back of the
    output, alpha first. *)
Lemma rearrange_loop_rgba px rest acc :
  rearrange_loop (rgba_bytes px ++ rest) acc
  = rearrange_loop rest (acc ++ argb_bytes px).
Proof.
  revert acc. induction px as [|p px IH]; intros acc.
  - simpl. by rewrite app_nil_r.
  - rewrite rgba_bytes_cons, argb_bytes_cons, <-(assoc_L (++)).
    by rewrite rearrange_loop_pixel, IH, (assoc_L (++)).
Qed.

Lemma after_passes_rgba px rest acc :
  after_passes (length px) (rgba_bytes px ++ rest) acc
  = Some (rest, acc ++ argb_bytes px).
Proof.
  revert acc. induction px as [|p px IH]; intros acc.
  - simpl. by rewrite app_nil_r.
  - rewrite rgba_bytes_cons, argb_bytes_cons, <-(assoc_L (++)). simpl length.
    cbn [after_passes]. by rewrite loop_body_pixel, IH, (assoc_L (++)).
Qed.

Lemma while_true_rgba fuel px rest acc :
  while_true (length px + fuel) (rgba_bytes px ++ rest) acc
  = while_true fuel rest (acc ++ argb_bytes px).
Proof.
  revert acc. induction px as [|p px IH]; intros acc.
  - simpl. by rewrite app_nil_r.
  - rewrite rgba_bytes_cons, argb_bytes_cons, <-(assoc_L (++)). simpl length.
    cbn [while_true Nat.add]. by rewrite loop_body_pixel, IH, (assoc_L (++)).
Qed.

Lemma while_true_short fuel rest acc :
  length rest < 4 →
  while_true (S fuel) rest acc = Some (rearrange_loop rest acc).
Proof.
  intros H. cbn [while_true].
  rewrite loop_body_short, rearrange_loop_short by done. by destruct rest.
Qed.

(** The loop always leaves, after one pass more than there are whole
    pixels, and with the outcome of [rearrange_loop]. *)
Lemma while_true_terminates it acc fuel :
  length it / 4 < fuel →
  while_true fuel it acc = Some (rearrange_loop it acc).
Proof.
  destruct (bytes_groups it) as (px & rest & -> & Hrest).
  rewrite length_app, length_rgba_bytes.
  replace ((4 * length px + length rest) / 4) with (length px)
    by (apply Nat.div_unique with (length rest); lia).
  intros Hfuel. replace fuel with (length px + S (fuel - S (length px))) by lia.
  by rewrite while_true_rgba, rearrange_loop_rgba, while_true_short.
Qed.

(** With fewer passes than that it is still running. *)
Lemma while_true_running it acc fuel :
  fuel ≤ length it / 4 → while_true fuel it acc = None.
Proof.
  revert it acc. induction fuel as [|fuel IH]; intros it acc Hfuel; [done|].
  destruct it as [|r [|g [|b [|a it]]]];
    try (cbn in Hfuel; lia).
  cbn [while_true]. change (loop_body _ _) with
    (Continue it (acc ++ [a] ++ [r] ++ [g] ++ [b])).
  apply IH. change (r :: g :: b :: a :: it) with ([r; g; b; a] ++ it) in Hfuel.
  rewrite length_app in Hfuel. simpl length in Hfuel.
  replace (4 + length it) with (1 * 4 + length it) in Hfuel by lia.
  rewrite Nat.add_comm, Nat.div_add in Hfuel by lia. lia.
Qed.

Lemma rearrange_loop_Ok it acc out :
  rearrange_loop it acc = Ok out ↔
  ∃ px, it = rgba_bytes px ∧ out = acc ++ argb_bytes px.
Proof.
  split.
  - destruct (bytes_groups it) as (px & rest & -> & Hrest).
    rewrite rearrange_loop_rgba, rearrange_loop_short by done.
    destruct rest; [|done]. intros [= <-]. exists px. by rewrite app_nil_r.
  - intros (px & -> & ->). rewrite <-(app_nil_r (rgba_bytes px)).
    by rewrite rearrange_loop_rgba.
Qed.

Lemma rearrange_loop_Raise it acc e :
  rearrange_loop it acc = Raise e ↔ length it `mod` 4 ≠ 0 ∧ e = StopIteration.
Proof.
  destruct (bytes_groups it) as (px & rest & -> & Hrest).
  rewrite rearrange_loop_rgba, rearrange_loop_short by done.
  rewrite length_app, length_rgba_bytes.
  replace (4 * length px + length rest) with (length rest + length px * 4) by lia.
  rewrite Nat.Div0.mod_add, Nat.mod_small by done.
  destruct rest; simpl.
  - split; [done | by intros [? _]].
  - split; [by intros [= <-] | by intros [_ ->]].
Qed.

(** The loop neither adds nor drops a byte. *)
Lemma rearrange_loop_length it acc out :
  rearrange_loop it acc = Ok out → length out = length acc + length it.
Proof.
  intros (px & -> & ->)%rearrange_loop_Ok.
  by rewrite length_app, length_rgba_bytes, length_argb_bytes.
Qed.

Lemma rearrange_loop_multiple_of_4 it acc :
  length it `mod` 4 = 0 → ∃ out, rearrange_loop it acc = Ok out.
Proof.
  intros Hmod. destruct (rearrange_loop it acc) as [out|e] eqn:Heq; [by exists out|].
  apply rearrange_loop_Raise in Heq as [? _]. done.
Qed.

End Loop.

(** ** The conversion *)

Section Conversion.
Implicit Types pam pam_data out : bytes.
Implicit Types px : list pixel.

Lemma ICON_BYTES_eq : ICON_BYTES = 4096.
Proof. reflexivity. Qed.

Lemma length_END_HEADER_CHUNK : length END_HEADER_CHUNK = 8.
Proof. reflexivity. Qed.

(** [convert] is the extraction of [pam_data] followed by the length check
    and the loop. *)
Lemma convert_extract pam :
  convert pam =
    pam_data ← extract_pam_data pam;
    if negb (length pam_data =? ICON_BYTES) then
      Raise (ValueError MSG_WRONG_LENGTH)
    else rearrange_loop pam_data [].
Proof.
  unfold convert, extract_pam_data.
  destruct (negb (startswith pam PAM_SIGNATURE)); [done|].
  destruct (index pam END_HEADER_CHUNK) as [i|e]; [|done]. cbn.
  destruct (negb _); [done|]. by destruct (rearrange_loop _ _).
Qed.

Lemma extract_pam_data_first_occurrence pam i :
  PAM_SIGNATURE `prefix_of` pam →
  first_occurrence END_HEADER_CHUNK pam i →
  extract_pam_data pam = Ok (drop (i + length END_HEADER_CHUNK) pam).
Proof.
  intros Hsig%startswith_prefix Hi%index_Ok.
  unfold extract_pam_data. by rewrite Hsig, Hi.
Qed.

Lemma convertP pam : convert_spec pam (convert pam).
Proof.
  unfold convert.
  destruct (startswith pam PAM_SIGNATURE) eqn:Hsig; simpl.
  2:{ apply convert_bad_signature. by apply startswith_not_prefix. }
  apply startswith_prefix in Hsig.
  destruct (index pam END_HEADER_CHUNK) as [i|e] eqn:Hidx; cbn.
  2:{ apply index_Raise in Hidx as [Hno ->]. by apply convert_no_marker. }
  apply index_Ok in Hidx.
  destruct (length _ =? _) eqn:Hlen; simpl.
  2:{ apply Nat.eqb_neq in Hlen. by apply convert_wrong_length with i. }
  apply Nat.eqb_eq in Hlen.
  destruct (rearrange_loop _ []) as [out|e] eqn:Hloop; cbn.
  - apply rearrange_loop_Ok in Hloop as (px & Hpx & ->). simpl.
    apply convert_pixels with i; [done..|].
    rewrite Hpx, length_rgba_bytes in Hlen. lia.
  - apply rearrange_loop_Raise in Hloop as [Hmod _].
    rewrite Hlen in Hmod. by destruct Hmod.
Qed.

Lemma convert_of_pixels pam i px :
  PAM_SIGNATURE `prefix_of` pam →
  first_occurrence END_HEADER_CHUNK pam i →
  drop (i + length END_HEADER_CHUNK) pam = rgba_bytes px →
  length px = 1024 →
  convert pam = Ok (argb_bytes px).
Proof.
  intros Hsig Hi Hpx Hlen.
  destruct (convertP pam) as [Hbad|_ Hno|j _ Hj Hne|j px' _ Hj Hpx' _].
  - done.
  - destruct Hno. exists i. apply Hi.
  - rewrite <-(first_occurrence_unique _ _ _ _ Hi Hj), Hpx in Hne.
    rewrite length_rgba_bytes in Hne. lia.
  - rewrite <-(first_occurrence_unique _ _ _ _ Hi Hj), Hpx in Hpx'.
    apply (f_equal (λ l, rearrange_loop l [])) in Hpx'.
    rewrite <-(app_nil_r (rgba_bytes px)), <-(app_nil_r (rgba_bytes px')) in Hpx'.
    rewrite !rearrange_loop_rgba in Hpx'. by simpl in Hpx'.
Qed.

End Conversion.

(** ** What the specification claims *)

Lemma convert_after_marker (pam : bytes) (i : nat) :
  PAM_SIGNATURE `prefix_of` pam →
  first_occurrence END_HEADER_CHUNK pam i →
  convert pam =
    if negb (length (drop (i + length END_HEADER_CHUNK) pam) =? ICON_BYTES)
    then Raise (ValueError MSG_WRONG_LENGTH)
    else rearrange_loop (drop (i + length END_HEADER_CHUNK) pam) [].
Proof.
  intros Hsig Hi.
  by rewrite convert_extract, (extract_pam_data_first_occurrence _ i).
Qed.

Lemma convert_guarded (pam : bytes) :
  convert pam = signature_guard after_signature_check pam.
Proof. reflexivity. Qed.

(** The [k]-th group of four bytes of a sequence of pixels laid out with [f]
    is the layout of the [k]-th pixel. *)
Lemma concat_groups_lookup (f : pixel → bytes) (px : list pixel) (k : nat) (p : pixel) :
  (∀ q, length (f q) = 4) →
  px !! k = Some p →
  take 4 (drop (4 * k) (concat (f <$> px))) = f p.
Proof.
  intros Hf. revert k. induction px as [|q px IH]; intros k Hk; [done|].
  destruct k as [|k]; simpl in Hk.
  - injection Hk as ->. simpl. by apply take_app_length'.
  - replace (4 * S k) with (length (f q) + 4 * k) by (rewrite Hf; lia).
    rewrite fmap_cons. simpl concat. rewrite drop_app_add. by apply IH.
Qed.

(** C1. A container that starts with the signature, contains the
    end-of-header marker and carries, after the first marker, the 4096 bytes
    of 1024 pixels (r, g, b, a) is converted successfully, to the 4096 bytes
    of the same pixels as (a, r, g, b): the [k]-th group of four output bytes
    is the [k]-th pixel, alpha first. *)
Theorem convert_rgba_to_argb (pam : bytes) (i : nat) (px : list pixel) :
  PAM_SIGNATURE `prefix_of` pam →
  first_occurrence END_HEADER_CHUNK pam i →
  drop (i + length END_HEADER_CHUNK) pam = rgba_bytes px →
  length px = 1024 →
  convert pam = Ok (argb_bytes px)
  ∧ length (rgba_bytes px) = 4096
  ∧ length (argb_bytes px) = 4096
  ∧ ∀ k p, px !! k = Some p →
      take 4 (drop (4 * k) (rgba_bytes px)) = [red p; green p; blue p; alpha p]
      ∧ take 4 (drop (4 * k) (argb_bytes px)) = [alpha p; red p; green p; blue p].
Proof.
  intros Hsig Hi Hpx Hlen. split; [by apply convert_of_pixels with i|].
  rewrite length_rgba_bytes, length_argb_bytes, Hlen.
  repeat split; try reflexivity.
  - by apply (concat_groups_lookup rgba).
  - by apply (concat_groups_lookup argb).
Qed.

Lemma convert_rgba_to_argb_witness :
  convert (minimal_container (rgba_bytes two_tone_icon))
  = Ok (argb_bytes two_tone_icon).
Proof.
  apply (convert_rgba_to_argb (minimal_container (rgba_bytes two_tone_icon))
           2 two_tone_icon).
  - eexists. reflexivity.
  - apply bytes_find_Some. vm_compute. reflexivity.
  - vm_compute. reflexivity.
  - vm_compute. reflexivity.
Defined.

(** C2. Whenever the conversion succeeds, its output is exactly as long as
    the payload that passed the length check, which is 4096 bytes: nothing
    is added, nothing is dropped. *)
Theorem convert_preserves_length (pam out : bytes) :
  convert pam = Ok out →
  ∃ i, first_occurrence END_HEADER_CHUNK pam i
       ∧ length out = length (drop (i + length END_HEADER_CHUNK) pam)
       ∧ length out = 4096.
Proof.
  intros Hconv. destruct (convertP pam) as [| | |i px _ Hi Hpx Hlen]; try done.
  injection Hconv as <-. exists i. split; [done|].
  rewrite Hpx, length_rgba_bytes, length_argb_bytes, Hlen. done.
Qed.

Lemma convert_preserves_length_witness :
  ∃ i, first_occurrence END_HEADER_CHUNK (pngtopam_header ++ scenario_payload) i
       ∧ length scenario_output
         = length (drop (i + length END_HEADER_CHUNK)
                     (pngtopam_header ++ scenario_payload))
       ∧ length scenario_output = 4096.
Proof.
  apply (convert_preserves_length (pngtopam_header ++ scenario_payload)
           scenario_output).
  vm_compute. reflexivity.
Defined.

(** C3. A container that does not start with the signature is rejected with
    the error for an invalid PAM file. The rejection comes from lines 25 and
    26 alone: it is the same whatever the rest of the function would do with
    the container, so it precedes the search for the marker and any look at
    the payload. *)
Theorem convert_rejects_bad_signature (pam : bytes) :
  ¬ PAM_SIGNATURE `prefix_of` pam →
  convert pam = Raise (ValueError MSG_INVALID_PAM)
  ∧ ∀ rest : bytes → result bytes,
      signature_guard rest pam = Raise (ValueError MSG_INVALID_PAM).
Proof.
  intros Hsig%startswith_not_prefix. rewrite convert_guarded.
  unfold signature_guard. by rewrite Hsig.
Qed.

Lemma convert_rejects_bad_signature_witness :
  convert ([x50; x36; x0a] ++ END_HEADER_CHUNK ++ scenario_payload)
  = Raise (ValueError MSG_INVALID_PAM).
Proof.
  apply (convert_rejects_bad_signature
           ([x50; x36; x0a] ++ END_HEADER_CHUNK ++ scenario_payload)).
  intros [k Hk]. discriminate Hk.
Defined.

(** C4. A container that starts with the signature but contains the
    end-of-header marker nowhere is rejected with the lookup failure of
    [bytes.index]; the conversion yields no output. *)
Theorem convert_rejects_missing_marker (pam : bytes) :
  PAM_SIGNATURE `prefix_of` pam →
  ¬ contains pam END_HEADER_CHUNK →
  convert pam = Raise (ValueError MSG_NOT_FOUND)
  ∧ is_Ok (convert pam) = false.
Proof.
  intros Hsig%startswith_prefix Hno%bytes_find_None.
  unfold convert, index. by rewrite Hsig, Hno.
Qed.

Lemma convert_rejects_missing_marker_witness :
  convert (PAM_SIGNATURE ++ scenario_payload) = Raise (ValueError MSG_NOT_FOUND).
Proof.
  apply (convert_rejects_missing_marker (PAM_SIGNATURE ++ scenario_payload)).
  - eexists. reflexivity.
  - apply bytes_find_None. vm_compute. reflexivity.
Defined.

(** C5. For a container with the signature and the marker, the conversion
    fails with the wrong-length error exactly when the payload is not 4096
    bytes long, and succeeds exactly when it is; it fails in no other way.
    Payloads of 4095, 4097 and 0 bytes are therefore rejected. *)
Theorem convert_checks_payload_length (pam : bytes) (i : nat) :
  PAM_SIGNATURE `prefix_of` pam →
  first_occurrence END_HEADER_CHUNK pam i →
  let pam_data := drop (i + length END_HEADER_CHUNK) pam in
  (convert pam = Raise (ValueError MSG_WRONG_LENGTH) ↔ length pam_data ≠ 4096)
  ∧ (is_Ok (convert pam) = true ↔ length pam_data = 4096)
  ∧ (∀ e, convert pam = Raise e → e = ValueError MSG_WRONG_LENGTH)
  ∧ (length pam_data = 4095 ∨ length pam_data = 4097 ∨ length pam_data = 0 →
     convert pam = Raise (ValueError MSG_WRONG_LENGTH)).
Proof.
  intros Hsig Hi pam_data. rewrite (convert_after_marker pam i) by done.
  fold pam_data. rewrite ICON_BYTES_eq.
  destruct (length pam_data =? 4096) eqn:Hlen; simpl.
  - apply Nat.eqb_eq in Hlen.
    destruct (rearrange_loop_multiple_of_4 pam_data []) as [out ->];
      [by rewrite Hlen|].
    repeat split; try done; lia.
  - apply Nat.eqb_neq in Hlen. repeat split; try done. by intros e [= <-].
Qed.

Lemma convert_checks_payload_length_witness :
  convert (pngtopam_header ++ replicate 4095 x00)
  = Raise (ValueError MSG_WRONG_LENGTH).
Proof.
  apply (convert_checks_payload_length (pngtopam_header ++ replicate 4095 x00) 59).
  - eexists. reflexivity.
  - apply bytes_find_Some. vm_compute. reflexivity.
  - left. vm_compute. reflexivity.
Defined.

(** The four payload sizes the specification names, in the smallest
    container. *)
Example payload_4095_rejected :
  convert (minimal_container (replicate 4095 x00))
  = Raise (ValueError MSG_WRONG_LENGTH).
Proof. vm_compute. reflexivity. Qed.

Example payload_4097_rejected :
  convert (minimal_container (replicate 4097 x00))
  = Raise (ValueError MSG_WRONG_LENGTH).
Proof. vm_compute. reflexivity. Qed.

Example payload_0_rejected :
  convert (minimal_container []) = Raise (ValueError MSG_WRONG_LENGTH).
Proof. vm_compute. reflexivity. Qed.

Example payload_4096_accepted :
  convert (minimal_container (replicate 4096 x00)) = Ok (replicate 4096 x00).
Proof. vm_compute. reflexivity. Qed.

(** The 16-byte scenario of the specification: four well-formed pixels are
    still not an icon. *)
Example payload_16_rejected :
  convert (minimal_container
             [x01; x02; x03; x04; x05; x06; x07; x08;
              x09; x0a; x0b; x0c; x0d; x0e; x0f; x10])
  = Raise (ValueError MSG_WRONG_LENGTH).
Proof. vm_compute. reflexivity. Qed.

Lemma scenario_payload_pixels :
  scenario_payload = rgba_bytes (replicate 1024 (Pixel x10 x20 x30 x40))
  ∧ scenario_output = argb_bytes (replicate 1024 (Pixel x10 x20 x30 x40)).
Proof.
  unfold scenario_payload, scenario_output, rgba_bytes, argb_bytes.
  by rewrite !fmap_replicate.
Qed.

(** C6. In any valid container, a payload of 1024 times the bytes
    10 20 30 40 (hexadecimal) is converted to 1024 times 40 10 20 30. *)
Theorem convert_concrete_scenario (pam : bytes) (i : nat) :
  PAM_SIGNATURE `prefix_of` pam →
  first_occurrence END_HEADER_CHUNK pam i →
  drop (i + length END_HEADER_CHUNK) pam = scenario_payload →
  convert pam = Ok scenario_output.
Proof.
  intros Hsig Hi Hpayload. destruct scenario_payload_pixels as [Hin ->].
  apply convert_of_pixels with i;
    [done | done | by rewrite Hpayload | by rewrite length_replicate].
Qed.

Lemma convert_concrete_scenario_witness :
  convert (pngtopam_header ++ scenario_payload) = Ok scenario_output.
Proof.
  apply (convert_concrete_scenario (pngtopam_header ++ scenario_payload) 59).
  - eexists. reflexivity.
  - apply bytes_find_Some. vm_compute. reflexivity.
  - vm_compute. reflexivity.
Defined.

(** ** The loop on validated and on ragged payloads *)

Lemma after_passes_inv (n : nat) (it acc it' acc' : bytes) :
  after_passes n it acc = Some (it', acc') →
  ∃ px, length px = n ∧ it = rgba_bytes px ++ it' ∧ acc' = acc ++ argb_bytes px.
Proof.
  revert it acc. induction n as [|n IH]; intros it acc; simpl.
  - intros [= <- <-]. exists []. by rewrite app_nil_r.
  - destruct it as [|r [|g [|b [|a it]]]]; simpl; try done.
    intros (px & <- & -> & ->)%IH. exists (Pixel r g b a :: px).
    rewrite argb_bytes_cons, (assoc_L (++)). done.
Qed.

Lemma loop_body_no_abort (it acc : bytes) (e : exn) :
  length it `mod` 4 = 0 → loop_body it acc ≠ Abort e.
Proof. destruct it as [|r [|g [|b [|a it]]]]; simpl; done. Qed.

(** C7. On a payload of 4096 bytes the loop is total: it leaves through
    [break] on its 1025th pass, after 1024 passes that used up every byte of
    the payload, and no pass on the way can run out of bytes in the middle
    of a pixel. On a payload whose length is not a multiple of 4 the loop
    ends with [StopIteration] instead of returning a shorter output. *)
Theorem loop_total_on_validated_payload (pam_data : bytes) :
  (length pam_data = 4096 →
   ∃ out, rearrange_loop pam_data [] = Ok out
     ∧ while_true 1025 pam_data [] = Some (Ok out)
     ∧ while_true 1024 pam_data [] = None
     ∧ after_passes 1024 pam_data [] = Some ([], out)
     ∧ length out = 4096
     ∧ ∀ n it acc e, after_passes n pam_data [] = Some (it, acc) →
                     loop_body it acc ≠ Abort e)
  ∧ (length pam_data `mod` 4 ≠ 0 →
     rearrange_loop pam_data [] = Raise StopIteration
     ∧ ∀ fuel, length pam_data `div` 4 < fuel →
               while_true fuel pam_data [] = Some (Raise StopIteration)).
Proof.
  split.
  - intros Hlen.
    destruct (rearrange_loop_multiple_of_4 pam_data []) as [out Hout];
      [by rewrite Hlen|].
    assert (Hdiv : length pam_data `div` 4 = 1024) by by rewrite Hlen.
    exists out. split; [done|]. split.
    { rewrite while_true_terminates, Hout; [done | lia]. }
    split; [apply while_true_running; lia|].
    apply rearrange_loop_Ok in Hout as (px & -> & ->).
    rewrite length_rgba_bytes in Hlen.
    assert (Hpx : length px = 1024) by lia. split.
    { rewrite <-Hpx, <-(app_nil_r (rgba_bytes px)) at 1.
      apply after_passes_rgba. }
    split; [simpl; rewrite length_argb_bytes; lia|].
    intros n it acc e (px' & _ & Heq & _)%after_passes_inv.
    apply loop_body_no_abort. apply (f_equal length) in Heq.
    rewrite length_app, !length_rgba_bytes in Heq.
    replace (length it) with ((length px - length px') * 4) by lia.
    apply Nat.Div0.mod_mul.
  - intros Hmod.
    assert (Hloop : rearrange_loop pam_data [] = Raise StopIteration).
    { destruct (rearrange_loop pam_data []) as [out|e] eqn:Heq.
      - apply rearrange_loop_Ok in Heq as (px & -> & _).
        rewrite length_rgba_bytes, Nat.mul_comm, Nat.Div0.mod_mul in Hmod. done.
      - by apply rearrange_loop_Raise in Heq as [_ ->]. }
    split; [done|]. intros fuel Hfuel. by rewrite while_true_terminates, Hloop.
Qed.

Lemma loop_total_on_validated_payload_witness :
  (∃ out, rearrange_loop scenario_payload [] = Ok out
     ∧ while_true 1025 scenario_payload [] = Some (Ok out)
     ∧ while_true 1024 scenario_payload [] = None
     ∧ after_passes 1024 scenario_payload [] = Some ([], out)
     ∧ length out = 4096
     ∧ ∀ n it acc e, after_passes n scenario_payload [] = Some (it, acc) →
                     loop_body it acc ≠ Abort e)
  ∧ rearrange_loop [x10; x20; x30; x40; x10; x20] [] = Raise StopIteration.
Proof.
  split.
  - apply (proj1 (loop_total_on_validated_payload scenario_payload)).
    vm_compute. reflexivity.
  - apply (proj2 (loop_total_on_validated_payload [x10; x20; x30; x40; x10; x20])).
    vm_compute. discriminate.
Defined.

(** ** The output file *)

(** For contrast with C8: when the conversion succeeds and the file can be
    created, the converted bytes are what the output file holds afterwards. *)
Lemma perform_conversion_writes_output
    (run_command : list string → gmap string bytes → Z * bytes)
    (can_create : gmap string bytes → string → bool)
    (input output : string) (w : world) (pam argb_data : bytes) :
  run_command ["pngtopam"; "-alphapam"; input]%string (files w) = (0%Z, pam) →
  convert pam = Ok argb_data →
  can_create (files w) output = true →
  ∃ w', perform_conversion run_command can_create input output w = (Ok (), w')
        ∧ files w' = <[output := argb_data]> (files w).
Proof.
  intros Hrun Hconv Hcreate. eexists. split.
  - unfold perform_conversion, png2pam, subprocess_run_stdout, mbind, io_bind.
    rewrite Hrun. simpl. unfold lift_result. rewrite Hconv.
    unfold open_wb. simpl. rewrite Hcreate. reflexivity.
  - simpl. apply map_eq. intros path.
    destruct (decide (output = path)) as [->|Hne].
    + by rewrite lookup_alter_eq, !lookup_insert_eq.
    + by rewrite lookup_alter_ne, !lookup_insert_ne.
Qed.

(** C8. When the decoder has delivered a container and the conversion of it
    fails, the script ends with that failure, which is one of bad signature,
    missing marker or wrong payload length; all it has done by then is run
    the decoder. The output file has not been opened or written, and every
    file is as it was. *)
Theorem no_output_on_failed_conversion
    (run_command : list string → gmap string bytes → Z * bytes)
    (can_create : gmap string bytes → string → bool)
    (input output : string) (w : world) (pam : bytes) (e : exn) :
  run_command ["pngtopam"; "-alphapam"; input]%string (files w) = (0%Z, pam) →
  convert pam = Raise e →
  ∃ w', perform_conversion run_command can_create input output w = (Raise e, w')
        ∧ files w' = files w
        ∧ trace w' = trace w ++ [EvRun ["pngtopam"; "-alphapam"; input]%string]
        ∧ (∀ ev, ev ∈ trace w' → ev ∈ trace w ∨ ∃ cmd, ev = EvRun cmd)
        ∧ (e = ValueError MSG_INVALID_PAM ∨ e = ValueError MSG_NOT_FOUND
           ∨ e = ValueError MSG_WRONG_LENGTH).
Proof.
  intros Hrun Hconv. eexists. split; [|split; [|split; [|split]]].
  - unfold perform_conversion, png2pam, subprocess_run_stdout, mbind, io_bind.
    rewrite Hrun. simpl. unfold lift_result. rewrite Hconv. reflexivity.
  - reflexivity.
  - reflexivity.
  - simpl. intros ev [Hev|Hev%list_elem_of_singleton]%elem_of_app; eauto.
  - destruct (convertP pam); try discriminate; injection Hconv as <-; auto.
Qed.

Lemma no_output_on_failed_conversion_witness :
  ∃ w', perform_conversion four_pixel_decoder (λ _ _, true)
          "icon.png" "icon.bin" stale_world
        = (Raise (ValueError MSG_WRONG_LENGTH), w')
        ∧ files w' = files stale_world
        ∧ trace w' = trace stale_world
                     ++ [EvRun ["pngtopam"; "-alphapam"; "icon.png"]%string]
        ∧ (∀ ev, ev ∈ trace w' → ev ∈ trace stale_world ∨ ∃ cmd, ev = EvRun cmd)
        ∧ (ValueError MSG_WRONG_LENGTH = ValueError MSG_INVALID_PAM
           ∨ ValueError MSG_WRONG_LENGTH = ValueError MSG_NOT_FOUND
           ∨ ValueError MSG_WRONG_LENGTH = ValueError MSG_WRONG_LENGTH).
Proof.
  apply (no_output_on_failed_conversion four_pixel_decoder (λ _ _, true)
           "icon.png" "icon.bin" stale_world
           (minimal_container
              [x01; x02; x03; x04; x05; x06; x07; x08;
               x09; x0a; x0b; x0c; x0d; x0e; x0f; x10])).
  - reflexivity.
  - vm_compute. reflexivity.
Defined.

(** ** What the header may hold *)

(** C9. A container that starts with the signature and whose end-of-header
    marker is followed by exactly 4096 payload bytes is converted
    successfully, and the output is computed from the payload alone: the
    bytes between signature and marker are never looked at, so any other
    container with the same payload gives the same output, whatever depth,
    maxval or tuple type its header announces. *)
Theorem header_fields_not_inspected (pam : bytes) (i : nat) :
  PAM_SIGNATURE `prefix_of` pam →
  first_occurrence END_HEADER_CHUNK pam i →
  length (drop (i + length END_HEADER_CHUNK) pam) = 4096 →
  ∃ out, convert pam = Ok out
    ∧ rearrange_loop (drop (i + length END_HEADER_CHUNK) pam) [] = Ok out
    ∧ ∀ pam' i',
        PAM_SIGNATURE `prefix_of` pam' →
        first_occurrence END_HEADER_CHUNK pam' i' →
        drop (i' + length END_HEADER_CHUNK) pam'
          = drop (i + length END_HEADER_CHUNK) pam →
        convert pam' = Ok out.
Proof.
  intros Hsig Hi Hlen.
  destruct (rearrange_loop_multiple_of_4
              (drop (i + length END_HEADER_CHUNK) pam) []) as [out Hout];
    [by rewrite Hlen|].
  exists out. split; [|split; [done|]].
  - by rewrite (convert_after_marker pam i), Hlen, ICON_BYTES_eq.
  - intros pam' i' Hsig' Hi' Hsame.
    by rewrite (convert_after_marker pam' i'), Hsame, Hlen, ICON_BYTES_eq.
Qed.

Lemma header_fields_not_inspected_witness :
  ∃ out, convert odd_header_container = Ok out
    ∧ rearrange_loop (drop (42 + length END_HEADER_CHUNK) odd_header_container) []
      = Ok out
    ∧ ∀ pam' i',
        PAM_SIGNATURE `prefix_of` pam' →
        first_occurrence END_HEADER_CHUNK pam' i' →
        drop (i' + length END_HEADER_CHUNK) pam'
          = drop (42 + length END_HEADER_CHUNK) odd_header_container →
        convert pam' = Ok out.
Proof.
  apply (header_fields_not_inspected odd_header_container 42).
  - eexists. reflexivity.
  - apply bytes_find_Some. vm_compute. reflexivity.
  - vm_compute. reflexivity.
Defined.

(** ** Where the payload begins *)

Lemma occurs_at_app_r (sub pre s : bytes) (j : nat) :
  occurs_at sub s j ↔ occurs_at sub (pre ++ s) (length pre + j).
Proof.
  rewrite !occurs_at_drop, length_app.
  rewrite drop_app_ge by lia. replace (length pre + j - length pre) with j by lia.
  split; intros [Hj Hpre]; (split; [lia | done]).
Qed.

(** C10. The payload begins after the first occurrence of the eight marker
    bytes. When the container is [pre], then the marker, then [rest], and
    the marker occurs nowhere earlier, the script finds the marker at the
    end of [pre] and takes all of [rest] as the payload, whatever [rest]
    holds: every occurrence of the marker bytes in [rest] is a later
    occurrence in the container, stays in the payload, and is counted in
    the length that has to be 4096. *)
Theorem payload_follows_first_marker (pre rest : bytes) :
  let pam := pre ++ END_HEADER_CHUNK ++ rest in
  (∀ j, j < length pre → ¬ occurs_at END_HEADER_CHUNK pam j) →
  first_occurrence END_HEADER_CHUNK pam (length pre)
  ∧ index pam END_HEADER_CHUNK = Ok (length pre)
  ∧ drop (length pre + length END_HEADER_CHUNK) pam = rest
  ∧ (∀ j, occurs_at END_HEADER_CHUNK rest j ↔
          occurs_at END_HEADER_CHUNK pam
            (length pre + length END_HEADER_CHUNK + j))
  ∧ (PAM_SIGNATURE `prefix_of` pam →
     extract_pam_data pam = Ok rest
     ∧ (is_Ok (convert pam) = true ↔ length rest = 4096)).
Proof.
  intros pam Hmin.
  assert (Hfirst : first_occurrence END_HEADER_CHUNK pam (length pre)).
  { split; [by exists pre, rest | done]. }
  assert (Hdrop : drop (length pre + length END_HEADER_CHUNK) pam = rest).
  { unfold pam. rewrite (assoc_L (++)). apply drop_app_length'.
    by rewrite length_app. }
  split; [done|]. split; [by apply index_Ok|]. split; [done|]. split.
  - intros j. unfold pam. rewrite (assoc_L (++)), <-length_app.
    apply occurs_at_app_r.
  - intros Hsig. split.
    + by rewrite (extract_pam_data_first_occurrence pam (length pre)), Hdrop.
    + rewrite (convert_after_marker pam (length pre)), Hdrop, ICON_BYTES_eq by done.
      destruct (length rest =? 4096) eqn:Hlen; simpl.
      * apply Nat.eqb_eq in Hlen.
        destruct (rearrange_loop_multiple_of_4 rest []) as [out ->];
          [by rewrite Hlen | done].
      * apply Nat.eqb_neq in Hlen. split; [done | lia].
Qed.

Lemma payload_follows_first_marker_witness :
  extract_pam_data double_marker_container
  = Ok (END_HEADER_CHUNK ++ replicate 4088 x00)
  ∧ (is_Ok (convert double_marker_container) = true ↔
     length (END_HEADER_CHUNK ++ replicate 4088 x00) = 4096).
Proof.
  apply (payload_follows_first_marker
           (take 59 pngtopam_header) (END_HEADER_CHUNK ++ replicate 4088 x00)).
  - apply (bytes_find_Some double_marker_container END_HEADER_CHUNK 59).
    vm_compute. reflexivity.
  - eexists. reflexivity.
Defined.

(** The same container, run: the second marker is payload, its eight bytes
    come out rearranged like any two pixels, and without them the payload
    would have been too short. *)
Example double_marker_converted :
  convert double_marker_container
  = Ok ([x44; x0a; x45; x4e; x0a; x48; x44; x52] ++ replicate 4088 x00).
Proof. vm_compute. reflexivity. Qed.

(** * Further properties of the script *)

(** ** The whole of [perform_conversion] *)

(** The run of the script in one piece: the decoder is started first; its
    exit status, then the conversion, then the creation of the output file
    decide how far the script gets. *)
Lemma perform_conversion_run
    (run_command : list string → gmap string bytes → Z * bytes)
    (can_create : gmap string bytes → string → bool)
    (input output : string) (w : world) :
  let cmd := ["pngtopam"; "-alphapam"; input]%string in
  perform_conversion run_command can_create input output w =
    if ((run_command cmd (files w)).1 =? 0)%Z then
      match convert (run_command cmd (files w)).2 with
      | Raise e => (Raise e, World (files w) (trace w ++ [EvRun cmd]))
      | Ok argb_data =>
          if can_create (files w) output then
            (Ok (), World (<[output := argb_data]> (files w))
                          (trace w ++ [EvRun cmd; EvOpen output;
                                       EvWrite output argb_data; EvClose output]))
          else (Raise (OSError output), World (files w) (trace w ++ [EvRun cmd]))
      end
    else (Raise (CalledProcessError (run_command cmd (files w)).1 cmd),
          World (files w) (trace w ++ [EvRun cmd])).
Proof.
  intros cmd.
  unfold perform_conversion, png2pam, subprocess_run_stdout, mbind, io_bind.
  fold cmd. destruct (run_command cmd (files w)) as [returncode stdout]. simpl.
  destruct (returncode =? 0)%Z; [|done].
  unfold lift_result. destruct (convert stdout) as [argb_data|e]; [|done].
  unfold open_wb. simpl. destruct (can_create (files w) output); [|done].
  unfold write, close, emit. simpl. f_equal. f_equal.
  - apply map_eq. intros path. destruct (decide (output = path)) as [->|Hne].
    + by rewrite lookup_alter_eq, !lookup_insert_eq.
    + by rewrite lookup_alter_ne, !lookup_insert_ne.
  - by rewrite <-!(assoc_L (++)).
Qed.

(** X1. When the decoder exits with a status other than 0, the script ends
    with [CalledProcessError] for that status and command line, whatever the
    decoder printed: the printed bytes are not converted, no file is opened,
    and the files are as they were. *)
Theorem decoder_failure_propagates
    (run_command : list string → gmap string bytes → Z * bytes)
    (can_create : gmap string bytes → string → bool)
    (input output : string) (w : world) (returncode : Z) (stdout : bytes) :
  let cmd := ["pngtopam"; "-alphapam"; input]%string in
  run_command cmd (files w) = (returncode, stdout) →
  returncode ≠ 0%Z →
  perform_conversion run_command can_create input output w
  = (Raise (CalledProcessError returncode cmd),
     World (files w) (trace w ++ [EvRun cmd])).
Proof.
  intros cmd Hrun Hrc. rewrite perform_conversion_run. fold cmd.
  rewrite Hrun. simpl. apply Z.eqb_neq in Hrc. by rewrite Hrc.
Qed.

Lemma decoder_failure_propagates_witness :
  perform_conversion (scenario_decoder 1) allow_create
    "icon.png" "icon.bin" stale_world
  = (Raise (CalledProcessError 1 ["pngtopam"; "-alphapam"; "icon.png"]%string),
     World (files stale_world)
       (trace stale_world ++ [EvRun ["pngtopam"; "-alphapam"; "icon.png"]%string])).
Proof.
  apply (decoder_failure_propagates (scenario_decoder 1) allow_create
           "icon.png" "icon.bin" stale_world 1
           (pngtopam_header ++ scenario_payload)).
  - reflexivity.
  - discriminate.
Defined.






(** X5. When the conversion has succeeded but the output file cannot be
    created, the script ends with [OSError] for the output path; nothing is
    written and the files are as they were. *)
Theorem unwritable_output_fails
    (run_command : list string → gmap string bytes → Z * bytes)
    (can_create : gmap string bytes → string → bool)
    (input output : string) (w : world) (pam argb_data : bytes) :
  let cmd := ["pngtopam"; "-alphapam"; input]%string in
  run_command cmd (files w) = (0%Z, pam) →
  convert pam = Ok argb_data →
  can_create (files w) output = false →
  perform_conversion run_command can_create input output w
  = (Raise (OSError output), World (files w) (trace w ++ [EvRun cmd])).
Proof.
  intros cmd Hrun Hconv Hcreate. rewrite perform_conversion_run. fold cmd.
  rewrite Hrun. simpl. by rewrite Hconv, Hcreate.
Qed.

Lemma unwritable_output_fails_witness :
  perform_conversion (scenario_decoder 0) deny_create
    "icon.png" "icon.bin" stale_world
  = (Raise (OSError "icon.bin"),
     World (files stale_world)
       (trace stale_world ++ [EvRun ["pngtopam"; "-alphapam"; "icon.png"]%string])).
Proof.
  apply (unwritable_output_fails (scenario_decoder 0) deny_create
           "icon.png" "icon.bin" stale_world
           (pngtopam_header ++ scenario_payload) scenario_output).
  - reflexivity.
  - vm_compute. reflexivity.
  - reflexivity.
Defined.



(** ** The loop as a map on byte strings *)

Lemma argb_bytes_rotate (px : list pixel) :
  argb_bytes px = rgba_bytes (rotate_channels <$> px).
Proof.
  induction px as [|p px IH]; [done|].
  by rewrite fmap_cons, argb_bytes_cons, rgba_bytes_cons, IH.
Qed.

Lemma rgba_bytes_inj (px qx : list pixel) :
  rgba_bytes px = rgba_bytes qx → px = qx.
Proof.
  revert qx. induction px as [|[r g b a] px IH]; intros [|[r' g' b' a'] qx];
    try done.
  rewrite !rgba_bytes_cons. simpl. intros [= -> -> -> -> Hrest].
  f_equal. by apply IH.
Qed.

Lemma rotate_channels_inj : Inj (=) (=) rotate_channels.
Proof. intros [r g b a] [r' g' b' a'] [= -> -> -> ->]. done. Qed.

Lemma rearrange_loop_whole (px : list pixel) (acc : bytes) :
  rearrange_loop (rgba_bytes px) acc = Ok (acc ++ argb_bytes px).
Proof.
  rewrite <-(app_nil_r (rgba_bytes px)). by rewrite rearrange_loop_rgba.
Qed.

Lemma multiple_of_4_pixels (it : bytes) :
  length it `mod` 4 = 0 → ∃ px, it = rgba_bytes px.
Proof.
  intros Hmod. destruct (rearrange_loop_multiple_of_4 it [] Hmod) as [out Hout].
  apply rearrange_loop_Ok in Hout as (px & -> & _). by exists px.
Qed.

(** X7. The output of the loop is a rearrangement of what was in the list
    before together with the bytes read: no byte value is changed, made up
    or lost. *)
Theorem rearrange_loop_permutation (it acc out : bytes) :
  rearrange_loop it acc = Ok out → out ≡ₚ acc ++ it.
Proof.
  intros (px & -> & ->)%rearrange_loop_Ok. f_equiv. clear acc.
  induction px as [|[r g b a] px IH]; [done|].
  rewrite argb_bytes_cons, rgba_bytes_cons, IH. f_equiv.
  unfold argb, rgba. simpl. apply (Permutation_cons_append [r; g; b] a).
Qed.

Lemma rearrange_loop_permutation_witness :
  [x04; x01; x02; x03; x08; x05; x06; x07]
  ≡ₚ [] ++ [x01; x02; x03; x04; x05; x06; x07; x08].
Proof.
  apply (rearrange_loop_permutation
           [x01; x02; x03; x04; x05; x06; x07; x08] []
           [x04; x01; x02; x03; x08; x05; x06; x07]).
  reflexivity.
Defined.

(** X8. Byte by byte: the output byte at an index divisible by 4 is the
    input byte three places further on (the alpha of that pixel), and the
    output byte at any other index is the input byte one place before. This
    holds at every index, also past the end, where both are missing. *)
Theorem rearrange_loop_lookup (it out : bytes) (k : nat) :
  rearrange_loop it [] = Ok out →
  out !! k = it !! (if k `mod` 4 =? 0 then k + 3 else k - 1).
Proof.
  intros (px & -> & ->)%rearrange_loop_Ok. rewrite app_nil_l. revert k.
  induction px as [|[r g b a] px IH]; intros k.
  - change (argb_bytes []) with (@nil byte).
    change (rgba_bytes []) with (@nil byte). by rewrite !lookup_nil.
  - rewrite argb_bytes_cons, rgba_bytes_cons.
    destruct k as [|[|[|[|k]]]]; try reflexivity.
    replace (S (S (S (S k))) `mod` 4) with (k `mod` 4)
      by (replace (S (S (S (S k)))) with (k + 1 * 4) by lia;
          by rewrite Nat.Div0.mod_add).
    change ((argb (Pixel r g b a) ++ argb_bytes px) !! S (S (S (S k))))
      with (argb_bytes px !! k).
    rewrite IH. destruct (k `mod` 4 =? 0) eqn:Hk.
    + replace (S (S (S (S k))) + 3) with (S (S (S (S (k + 3))))) by lia.
      reflexivity.
    + destruct k as [|k]; [done|].
      replace (S (S (S (S (S k)))) - 1) with (S (S (S (S k)))) by lia.
      replace (S k - 1) with k by lia. reflexivity.
Qed.

Lemma rearrange_loop_lookup_witness :
  [x04; x01; x02; x03; x08; x05; x06; x07] !! 4
  = [x01; x02; x03; x04; x05; x06; x07; x08] !! (if 4 `mod` 4 =? 0 then 4 + 3 else 4 - 1).
Proof.
  apply (rearrange_loop_lookup
           [x01; x02; x03; x04; x05; x06; x07; x08]
           [x04; x01; x02; x03; x08; x05; x06; x07] 4).
  reflexivity.
Defined.

(** X9. The loop loses no information: two inputs that give the same
    output, from the same starting list, are the same input. *)
Theorem rearrange_loop_injective (it it' acc out : bytes) :
  rearrange_loop it acc = Ok out →
  rearrange_loop it' acc = Ok out →
  it = it'.
Proof.
  intros (px & -> & ->)%rearrange_loop_Ok (qx & -> & Heq)%rearrange_loop_Ok.
  apply app_inv_head in Heq. rewrite !argb_bytes_rotate in Heq.
  apply rgba_bytes_inj in Heq. f_equal.
  pose proof rotate_channels_inj as Hinj.
  by apply (inj (fmap rotate_channels)) in Heq.
Qed.

Lemma rearrange_loop_injective_witness :
  [x01; x02; x03; x04] = [x01; x02; x03; x04].
Proof.
  apply (rearrange_loop_injective [x01; x02; x03; x04] [x01; x02; x03; x04]
           [xff] [xff; x04; x01; x02; x03]); reflexivity.
Defined.

(** X10. The loop is a rotation of order four: run on its own output again
    and again, the fourth run gives back the bytes the first run started
    from. So three more runs undo one. *)
Theorem rearrange_loop_four_times (it : bytes) :
  length it `mod` 4 = 0 →
  (o1 ← rearrange_loop it [];
   o2 ← rearrange_loop o1 [];
   o3 ← rearrange_loop o2 [];
   rearrange_loop o3 []) = Ok it.
Proof.
  intros (px & ->)%multiple_of_4_pixels.
  rewrite rearrange_loop_whole. cbn [mbind result_bind app].
  rewrite argb_bytes_rotate, rearrange_loop_whole. cbn [mbind result_bind app].
  rewrite argb_bytes_rotate, rearrange_loop_whole. cbn [mbind result_bind app].
  rewrite argb_bytes_rotate, rearrange_loop_whole. cbn [app].
  rewrite argb_bytes_rotate, <-!list_fmap_compose. do 2 f_equal.
  rewrite <-(list_fmap_id px) at 2. apply list_fmap_ext.
  by intros _ [r g b a] _.
Qed.

Lemma rearrange_loop_four_times_witness :
  (o1 ← rearrange_loop scenario_payload [];
   o2 ← rearrange_loop o1 [];
   o3 ← rearrange_loop o2 [];
   rearrange_loop o3 []) = Ok scenario_payload.
Proof.
  apply (rearrange_loop_four_times scenario_payload). vm_compute. reflexivity.
Defined.

(** X11. Cutting the input between two pixels: the loop on [it1 ++ it2],
    where [it1] is a whole number of pixels, is the loop on [it1] followed
    by the loop on [it2] that goes on with the list the first one built. *)
Theorem rearrange_loop_app (it1 it2 acc : bytes) :
  length it1 `mod` 4 = 0 →
  rearrange_loop (it1 ++ it2) acc
  = (out1 ← rearrange_loop it1 acc; rearrange_loop it2 out1).
Proof.
  intros (px & ->)%multiple_of_4_pixels.
  by rewrite rearrange_loop_rgba, rearrange_loop_whole.
Qed.

Lemma rearrange_loop_app_witness :
  rearrange_loop ([x01; x02; x03; x04] ++ [x05; x06; x07]) []
  = (out1 ← rearrange_loop [x01; x02; x03; x04] [];
     rearrange_loop [x05; x06; x07] out1).
Proof.
  apply (rearrange_loop_app [x01; x02; x03; x04] [x05; x06; x07] []).
  reflexivity.
Defined.

(** X12. The list the loop starts with is only ever appended to: the
    outcome from a list [acc] is the outcome from the empty list with [acc]
    in front, and a failure is the same failure. *)
Theorem rearrange_loop_accumulates (it acc : bytes) :
  rearrange_loop it acc
  = (out ← rearrange_loop it []; mret (acc ++ out)).
Proof.
  destruct (bytes_groups it) as (px & rest & -> & Hrest).
  rewrite !rearrange_loop_rgba, !rearrange_loop_short by done.
  by destruct rest.
Qed.

(** X13. On an input of any length [n] the loop leaves on pass
    [n / 4 + 1]: with that many passes or more it has ended, with the
    outcome of [rearrange_loop], and with fewer it is still running. *)
Theorem while_true_pass_count (fuel : nat) (it acc : bytes) :
  while_true fuel it acc
  = if decide (length it `div` 4 < fuel) then Some (rearrange_loop it acc)
    else None.
Proof.
  case_decide.
  - by apply while_true_terminates.
  - apply while_true_running. lia.
Qed.

(** ** The shape of an accepted container *)

Lemma prefix_app_short (sub a e : bytes) :
  sub `prefix_of` a ++ e → length sub ≤ length a → sub `prefix_of` a.
Proof.
  intros [k Hk] Hlen.
  replace sub with (take (length sub) a); [apply prefix_take|].
  rewrite <-(take_app_le a e) by done. rewrite Hk. apply take_app_length.
Qed.

(** Bytes added at the end do not move the first occurrence. *)
Lemma first_occurrence_app (sub s e : bytes) (i : nat) :
  first_occurrence sub s i → first_occurrence sub (s ++ e) i.
Proof.
  intros [Hocc Hmin]. pose proof (occurs_at_bound _ _ _ Hocc) as Hbound. split.
  - destruct Hocc as (pre & post & -> & Hpre). exists pre, (post ++ e).
    by rewrite <-!(assoc_L (++)).
  - intros j Hj Hoccj. apply (Hmin j Hj).
    apply occurs_at_drop in Hoccj as [_ Hpre]. apply occurs_at_drop.
    split; [lia|]. rewrite drop_app_le in Hpre by lia.
    apply prefix_app_short in Hpre; [done|]. rewrite length_drop. lia.
Qed.

Lemma marker_after_signature (pam : bytes) (i : nat) :
  PAM_SIGNATURE `prefix_of` pam → occurs_at END_HEADER_CHUNK pam i → 2 ≤ i.
Proof.
  intros [k ->] (pre & post & Heq & <-).
  destruct pre as [|c [|c' pre]]; [discriminate Heq..|simpl; lia].
Qed.

Lemma convert_Ok_inv (pam out : bytes) :
  convert pam = Ok out →
  ∃ i, PAM_SIGNATURE `prefix_of` pam
       ∧ first_occurrence END_HEADER_CHUNK pam i
       ∧ length (drop (i + length END_HEADER_CHUNK) pam) = 4096
       ∧ rearrange_loop (drop (i + length END_HEADER_CHUNK) pam) [] = Ok out.
Proof.
  intros Hconv.
  destruct (convertP pam) as [| | |i px Hsig Hi Hpx Hlen]; try discriminate.
  injection Hconv as <-. exists i. split; [done|]. split; [done|].
  rewrite Hpx, length_rgba_bytes, Hlen. split; [done|].
  apply rearrange_loop_whole.
Qed.

Lemma convert_app (pam extra out : bytes) :
  convert pam = Ok out →
  convert (pam ++ extra)
  = match extra with
    | [] => Ok out
    | _ => Raise (ValueError MSG_WRONG_LENGTH)
    end.
Proof.
  intros Hconv. destruct extra as [|c extra]; [by rewrite app_nil_r|].
  apply convert_Ok_inv in Hconv as (i & Hsig & Hi & Hlen & _).
  pose proof (occurs_at_bound _ _ _ (proj1 Hi)) as Hbound.
  rewrite (convert_after_marker _ i);
    [|by apply prefix_app_r | by apply first_occurrence_app].
  rewrite drop_app_le by lia. rewrite length_app, Hlen, ICON_BYTES_eq.
  simpl length. destruct (_ =? _) eqn:Heq; [|done].
  apply Nat.eqb_eq in Heq. lia.
Qed.

(** X14. Every container the conversion accepts is a header followed by the
    payload, where the header starts with the signature, ends with the
    end-of-header marker and is at least 10 bytes long, and the payload is
    4096 bytes; so an accepted container has at least 4106 bytes. *)
Theorem accepted_container_layout (pam out : bytes) :
  convert pam = Ok out →
  ∃ header pam_data,
    pam = header ++ pam_data
    ∧ PAM_SIGNATURE `prefix_of` header
    ∧ END_HEADER_CHUNK `suffix_of` header
    ∧ 10 ≤ length header
    ∧ length pam_data = 4096
    ∧ rearrange_loop pam_data [] = Ok out
    ∧ 4106 ≤ length pam.
Proof.
  intros (i & Hsig & [Hocc Hmin] & Hlen & Hloop)%convert_Ok_inv.
  pose proof (marker_after_signature _ _ Hsig Hocc) as Hi.
  pose proof (occurs_at_bound _ _ _ Hocc) as Hbound.
  exists (take (i + length END_HEADER_CHUNK) pam),
         (drop (i + length END_HEADER_CHUNK) pam).
  assert (Hhdr : length (take (i + length END_HEADER_CHUNK) pam) = i + 8).
  { rewrite length_take. rewrite length_END_HEADER_CHUNK in *. lia. }
  split; [by rewrite take_drop|]. split; [|split; [|split; [lia|]]].
  - destruct Hsig as [k ->]. rewrite take_app.
    rewrite take_ge by (simpl; lia). by eexists.
  - destruct Hocc as (pre & post & -> & <-). rewrite (assoc_L (++)).
    rewrite take_app_length' by (by rewrite length_app). by exists pre.
  - split; [done|]. split; [done|].
    rewrite <-(take_drop (i + length END_HEADER_CHUNK) pam), length_app. lia.
Qed.

Lemma accepted_container_layout_witness :
  ∃ header pam_data,
    minimal_container scenario_payload = header ++ pam_data
    ∧ PAM_SIGNATURE `prefix_of` header
    ∧ END_HEADER_CHUNK `suffix_of` header
    ∧ 10 ≤ length header
    ∧ length pam_data = 4096
    ∧ rearrange_loop pam_data [] = Ok scenario_output
    ∧ 4106 ≤ length (minimal_container scenario_payload).
Proof.
  apply (accepted_container_layout (minimal_container scenario_payload)
           scenario_output).
  vm_compute. reflexivity.
Defined.

(** The bound is reached: the smallest container has exactly 4106 bytes. *)
Example minimal_container_length :
  length (minimal_container scenario_payload) = 4106
  ∧ convert (minimal_container scenario_payload) = Ok scenario_output.
Proof. split; vm_compute; reflexivity. Qed.

(** X15. Nothing may follow the payload: an accepted container with any
    bytes added at its end is rejected for its payload length. *)
Theorem trailing_bytes_rejected (pam extra out : bytes) :
  convert pam = Ok out →
  extra ≠ [] →
  convert (pam ++ extra) = Raise (ValueError MSG_WRONG_LENGTH).
Proof.
  intros Hconv Hextra. rewrite (convert_app pam extra out Hconv).
  by destruct extra.
Qed.

Lemma trailing_bytes_rejected_witness :
  convert ((pngtopam_header ++ scenario_payload) ++ [x0a])
  = Raise (ValueError MSG_WRONG_LENGTH).
Proof.
  apply (trailing_bytes_rejected (pngtopam_header ++ scenario_payload) [x0a]
           scenario_output).
  - vm_compute. reflexivity.
  - discriminate.
Defined.

(** X16. Nothing may be missing either: no proper prefix of an accepted
    container is accepted. *)
Theorem truncated_container_rejected (pam out : bytes) (n : nat) :
  convert pam = Ok out →
  n < length pam →
  is_Ok (convert (take n pam)) = false.
Proof.
  intros Hconv Hn. destruct (convert (take n pam)) as [out'|e] eqn:Htake; [|done].
  pose proof (convert_app (take n pam) (drop n pam) out' Htake) as Happ.
  rewrite take_drop, Hconv in Happ.
  destruct (drop n pam) eqn:Hdrop; [|discriminate].
  apply (f_equal length) in Hdrop. rewrite length_drop in Hdrop.
  simpl in Hdrop. lia.
Qed.

Lemma truncated_container_rejected_witness :
  is_Ok (convert (take 4162 (pngtopam_header ++ scenario_payload))) = false.
Proof.
  apply (truncated_container_rejected (pngtopam_header ++ scenario_payload)
           scenario_output 4162).
  - vm_compute. reflexivity.
  - vm_compute. lia.
Defined.

(** X17. Two containers that are converted to the same output carry the
    same payload: they can differ in their headers only. *)
Theorem same_output_same_payload (pam pam' out : bytes) :
  convert pam = Ok out →
  convert pam' = Ok out →
  ∃ i i',
    first_occurrence END_HEADER_CHUNK pam i
    ∧ first_occurrence END_HEADER_CHUNK pam' i'
    ∧ drop (i + length END_HEADER_CHUNK) pam
      = drop (i' + length END_HEADER_CHUNK) pam'.
Proof.
  intros (i & _ & Hi & _ & Hloop)%convert_Ok_inv
         (i' & _ & Hi' & _ & Hloop')%convert_Ok_inv.
  exists i, i'. split; [done|]. split; [done|].
  apply rearrange_loop_Ok in Hloop as (px & -> & ->).
  apply rearrange_loop_Ok in Hloop' as (qx & -> & Heq).
  simpl in Heq. rewrite !argb_bytes_rotate in Heq.
  apply rgba_bytes_inj in Heq. pose proof rotate_channels_inj as Hinj.
  apply (inj (fmap rotate_channels)) in Heq. by rewrite Heq.
Qed.

Lemma same_output_same_payload_witness :
  ∃ i i',
    first_occurrence END_HEADER_CHUNK (pngtopam_header ++ scenario_payload) i
    ∧ first_occurrence END_HEADER_CHUNK (minimal_container scenario_payload) i'
    ∧ drop (i + length END_HEADER_CHUNK) (pngtopam_header ++ scenario_payload)
      = drop (i' + length END_HEADER_CHUNK) (minimal_container scenario_payload).
Proof.
  apply (same_output_same_payload (pngtopam_header ++ scenario_payload)
           (minimal_container scenario_payload) scenario_output).
  - vm_compute. reflexivity.
  - vm_compute. reflexivity.
Defined.
